(** * BinaryMinHeap (source/binaryheap.py): shallow embedding and properties

    The Python class keeps one mutable attribute, [self.items], a list.
    Every method is embedded as a computation over that list which either
    returns a value or raises, and which always hands back the (possibly
    mutated) list: a Python exception does not roll back earlier mutations.

    Python integers are unbounded, so indices and sizes are [Z].  The
    exceptions of the source are [ValueError] (the "empty container" error of
    the specification), [IndexError] (its "index out of range" error) and
    [AssertionError] (the [assert] statements). *)

From Stdlib Require Import ZArith Lia.
From stdpp Require Import base numbers list.

Local Open Scope Z_scope.

(** ** Exceptions and outcomes *)

Inductive exn : Type :=
  | ValueError
  | IndexError
  | AssertionError.

Inductive outcome (A : Type) : Type :=
  | Return (a : A)
  | Raise (e : exn).

Arguments Return {A} a.
Arguments Raise {A} e.

(** ** The state-and-exception monad of the methods *)

Module HeapM.

Definition M (T A : Type) : Type := list T → outcome A * list T.

Definition ret {T A} (a : A) : M T A := λ s, (Return a, s).

Definition raise {T A} (e : exn) : M T A := λ s, (Raise e, s).

Definition bind {T A B} (m : M T A) (k : A → M T B) : M T B :=
  λ s, match m s with
       | (Return a, s') => k a s'
       | (Raise e, s') => (Raise e, s')
       end.

(** Outcome and final list of a call. *)
Definition result {T A} (m : M T A) (s : list T) : outcome A := fst (m s).
Definition exec {T A} (m : M T A) (s : list T) : list T := snd (m s).

End HeapM.

Import HeapM.

Notation "'let!' x ':=' m 'in' k" := (bind m (λ x, k))
  (at level 10, x name, m at level 100, k at level 200).
Notation "'run!' m 'in' k" := (bind m (λ _, k))
  (at level 10, m at level 100, k at level 200).

(** ** Python list primitives used by the class *)

Section PyList.
Context {T : Type}.

(** [len(self.items)] *)
Definition len (s : list T) : Z := Z.of_nat (length s).

Definition py_len : M T Z := λ s, (Return (len s), s).

(** [self.items.append(item)] *)
Definition py_append (item : T) : M T () := λ s, (Return (), s ++ [item]).

(** [self.items.pop()]: removes and returns the last item, [IndexError]
    on an empty list. *)
Definition py_pop : M T T :=
  λ s, match last s with
       | Some v => (Return v, removelast s)
       | None => (Raise IndexError, s)
       end.

(** Position denoted by a Python subscript: negative subscripts count
    from the end. *)
Definition py_index (i : Z) (s : list T) : option nat :=
  let j := if bool_decide (i < 0) then i + len s else i in
  if bool_decide (0 ≤ j < len s) then Some (Z.to_nat j) else None.

(** [self.items[i]] *)
Definition py_getitem (i : Z) : M T T :=
  λ s, match py_index i s ≫= (λ n, s !! n) with
       | Some v => (Return v, s)
       | None => (Raise IndexError, s)
       end.

(** [self.items[i] = v] *)
Definition py_setitem (i : Z) (v : T) : M T () :=
  λ s, match py_index i s with
       | Some n => (Return (), <[n := v]> s)
       | None => (Raise IndexError, s)
       end.

(** [assert b] *)
Definition py_assert (b : bool) : M T () :=
  if b then ret () else raise AssertionError.

End PyList.

(** ** The methods of [BinaryMinHeap] *)

Section BinaryMinHeap.
Context {T : Type}.

Definition is_empty : M T bool :=
  let! n := py_len in
  if bool_decide (n = 0) then ret true else ret false.

Definition size : M T Z := py_len.

Definition _last_index : M T Z :=
  let! n := py_len in ret (n - 1).

(** [(index - 1) >> 1], without the guard of [_parent_index]. *)
Definition parent (index : Z) : Z := Z.shiftr (index - 1) 1.

Definition _parent_index (index : Z) : M T Z :=
  if bool_decide (index ≤ 0) then raise IndexError
  else ret (parent index).

Definition _left_child_index (index : Z) : M T Z :=
  ret (Z.shiftl index 1 + 1).

Definition _right_child_index (index : Z) : M T Z :=
  ret (Z.shiftl index 1 + 2).

(** The body stops after reading the item and its parent: the swap and the
    recursive call are absent from the source. *)
Definition _bubble_up (index : Z) : M T () :=
  if bool_decide (index = 0) then ret ()
  else
    let! last := _last_index in
    if negb (bool_decide (0 ≤ index ≤ last)) then raise IndexError
    else
      let! item := py_getitem index in
      let! parent_index := _parent_index index in
      let! parent_item := py_getitem parent_index in
      ret ().

(** Likewise: the child to compare with is fixed to index 0 and nothing is
    swapped. *)
Definition _bubble_down (index : Z) : M T () :=
  let! last := _last_index in
  if negb (bool_decide (0 ≤ index ≤ last)) then raise IndexError
  else
    let! left_index := _left_child_index index in
    let! right_index := _right_child_index index in
    let! last' := _last_index in
    if bool_decide (left_index > last') then ret ()
    else
      let! item := py_getitem index in
      let child_index := 0 in
      let! child_item := py_getitem child_index in
      ret ().

Definition insert (item : T) : M T () :=
  run! py_append item in
  let! n := size in
  if bool_decide (n > 1) then
    let! last := _last_index in _bubble_up last
  else ret ().

Definition get_min : M T T :=
  let! n := size in
  if bool_decide (n = 0) then raise ValueError
  else
    let! n' := size in
    run! py_assert (bool_decide (n' > 0)) in
    py_getitem 0.

Definition delete_min : M T T :=
  let! n := size in
  if bool_decide (n = 0) then raise ValueError
  else
    let! n1 := size in
    if bool_decide (n1 = 1) then py_pop
    else
      let! n2 := size in
      run! py_assert (bool_decide (n2 > 1)) in
      let! min_item := py_getitem 0 in
      let! last_item := py_pop in
      run! py_setitem 0 last_item in
      let! n3 := size in
      run! (if bool_decide (n3 > 1) then _bubble_down 0 else ret ()) in
      ret min_item.

Definition replace_min (item : T) : M T T :=
  let! n := size in
  if bool_decide (n = 0) then raise ValueError
  else
    let! n' := size in
    run! py_assert (bool_decide (n' > 0)) in
    let! min_item := py_getitem 0 in
    run! py_setitem 0 item in
    let! n2 := size in
    run! (if bool_decide (n2 > 1) then _bubble_down 0 else ret ()) in
    ret min_item.

(** [for item in items: self.insert(item)] *)
Fixpoint insert_each (items : list T) : M T () :=
  match items with
  | [] => ret ()
  | item :: rest => run! insert item in insert_each rest
  end.

(** [BinaryMinHeap(items)]: the list left by [__init__].  The test
    [if items:] only skips an empty or absent argument, for which the loop
    does nothing anyway. *)
Definition init (items : list T) : list T :=
  exec (match items with [] => ret () | _ :: _ => insert_each items end) [].

End BinaryMinHeap.

(** ** Vocabulary of the properties *)

(** Heap order on a list of integers: every position [i > 0] holds an item
    at least as large as the one at [parent i]. *)
Definition heap_property (items : list Z) : Prop :=
  ∀ i : Z, 0 < i < len items →
    ∃ p c, items !! Z.to_nat (parent i) = Some p ∧
           items !! Z.to_nat i = Some c ∧ p ≤ c.

(** Lists reachable from the empty heap through the public mutators.  A
    call that raises still counts: the list it leaves is the heap. *)
Inductive reachable {T} : list T → Prop :=
  | reach_empty : reachable []
  | reach_insert h x : reachable h → reachable (exec (insert x) h)
  | reach_delete_min h : reachable h → reachable (exec delete_min h)
  | reach_replace_min h x : reachable h → reachable (exec (replace_min x) h).

(** An independent minimum of a non-empty list. *)
Definition minimum (items : list Z) : option Z :=
  match items with
  | [] => None
  | x :: rest => Some (foldr Z.min x rest)
  end.

(** Non-decreasing order. *)
Fixpoint nondecreasing (l : list Z) : Prop :=
  match l with
  | [] => True
  | x :: rest => match rest with
                 | [] => True
                 | y :: _ => x ≤ y ∧ nondecreasing rest
                 end
  end.

(** [n] successive calls of [delete_min], collecting what they return. *)
Fixpoint delete_min_times {T} (n : nat) : M T (list T) :=
  match n with
  | O => ret []
  | S n' => let! x := delete_min in
            let! xs := delete_min_times n' in
            ret (x :: xs)
  end.

(** [insert] each item, calling [get_min] after each insertion. *)
Fixpoint insert_get_min_each {T} (items : list T) : M T (list T) :=
  match items with
  | [] => ret []
  | item :: rest => run! insert item in
                    let! m := get_min in
                    let! ms := insert_get_min_each rest in
                    ret (m :: ms)
  end.

(** [__init__(self, items=None)]: [self.items = list()] replaces whatever
    the object held, then the given items are inserted one by one.  [None]
    is the default argument; like the empty list it is falsy, and the loop is
    skipped. *)
Definition __init__ {T} (items : option (list T)) : M T () :=
  run! (λ _, (Return (), [])) in
  match items with
  | Some (item :: rest) => insert_each (item :: rest)
  | Some [] | None => ret ()
  end.

(** The heap property as a check that can be run. *)
Definition heap_propertyb (items : list Z) : bool :=
  forallb
    (λ n : nat,
       match items !! Z.to_nat (parent (Z.of_nat n)), items !! n with
       | Some p, Some c => bool_decide (p ≤ c)
       | _, _ => false
       end)
    (seq 1 (length items - 1)).

(** ** Equations of the monad and of the list primitives *)

Section Equations.
Context {T : Type}.
Implicit Types (s h : list T) (i : Z).

Lemma bind_Return {A B} (m : M T A) (k : A → M T B) s a s' :
  m s = (Return a, s') → bind m k s = k a s'.
Proof. unfold bind. by intros ->. Qed.

Lemma bind_Raise {A B} (m : M T A) (k : A → M T B) s e s' :
  m s = (Raise e, s') → bind m k s = (Raise e, s').
Proof. unfold bind. by intros ->. Qed.

Lemma len_nonneg s : 0 ≤ len s.
Proof. unfold len. lia. Qed.

Lemma len_nil : len (@nil T) = 0.
Proof. reflexivity. Qed.

Lemma len_cons x s : len (x :: s) = len s + 1.
Proof. unfold len. rewrite length_cons. lia. Qed.

Lemma len_app s1 s2 : len (s1 ++ s2) = len s1 + len s2.
Proof. unfold len. rewrite length_app. lia. Qed.

Lemma len_zero s : len s = 0 ↔ s = [].
Proof.
  destruct s as [|x s]; [done|].
  rewrite len_cons. pose proof (len_nonneg s). split; [lia | done].
Qed.

Lemma size_eq s : size s = (Return (len s), s).
Proof. reflexivity. Qed.

Lemma _last_index_eq s : _last_index s = (Return (len s - 1), s).
Proof. reflexivity. Qed.

Lemma py_index_in_range i s :
  0 ≤ i < len s → py_index i s = Some (Z.to_nat i).
Proof.
  intros Hi. unfold py_index.
  rewrite (bool_decide_false (i < 0)) by lia.
  by rewrite bool_decide_true.
Qed.

Lemma py_getitem_in_range i s :
  0 ≤ i < len s → ∃ v, s !! Z.to_nat i = Some v ∧ py_getitem i s = (Return v, s).
Proof.
  intros Hi. unfold py_getitem. rewrite py_index_in_range by done. simpl.
  destruct (lookup_lt_is_Some_2 s (Z.to_nat i)) as [v Hv].
  { unfold len in Hi. lia. }
  exists v. by rewrite Hv.
Qed.

Lemma py_getitem_0 x s : py_getitem 0 (x :: s) = (Return x, x :: s).
Proof.
  unfold py_getitem. rewrite py_index_in_range; [done|].
  rewrite len_cons. pose proof (len_nonneg s). lia.
Qed.

Lemma py_setitem_0 v x s : py_setitem 0 v (x :: s) = (Return (), v :: s).
Proof.
  unfold py_setitem. rewrite py_index_in_range; [done|].
  rewrite len_cons. pose proof (len_nonneg s). lia.
Qed.

Lemma py_pop_snoc s x : py_pop (s ++ [x]) = (Return x, s).
Proof. unfold py_pop. by rewrite last_snoc, removelast_last. Qed.

(** A read never changes the list. *)
Lemma py_getitem_exec i s : exec (py_getitem i) s = s.
Proof. unfold exec, py_getitem. by destruct (_ ≫= _). Qed.

Lemma parent_div i : parent i = (i - 1) / 2.
Proof. unfold parent. by rewrite Z.shiftr_div_pow2. Qed.

Lemma parent_range i : 0 < i → 0 ≤ parent i < i.
Proof.
  intros Hi. rewrite parent_div. split.
  - apply Z.div_pos; lia.
  - apply Z.div_lt_upper_bound; lia.
Qed.

End Equations.

(** ** What each method computes *)

Section Methods.
Context {T : Type}.
Implicit Types (s h : list T) (i : Z) (x : T).

Lemma _parent_index_pos i h : 0 < i → _parent_index i h = (Return (parent i), h).
Proof. intros Hi. unfold _parent_index. by rewrite bool_decide_false by lia. Qed.

Lemma _parent_index_nonpos i h : i ≤ 0 → _parent_index i h = (Raise IndexError, h).
Proof. intros Hi. unfold _parent_index. by rewrite bool_decide_true by lia. Qed.

Lemma _bubble_up_root h : _bubble_up 0 h = (Return (), h).
Proof. reflexivity. Qed.

Lemma _bubble_up_in_range i h :
  0 ≤ i ≤ len h - 1 → _bubble_up i h = (Return (), h).
Proof.
  intros Hi. unfold _bubble_up. case_bool_decide as H0; [done|].
  rewrite (bind_Return _ _ _ _ _ (_last_index_eq h)).
  rewrite bool_decide_true by done. simpl.
  destruct (py_getitem_in_range i h) as (v & _ & Hv); [lia|].
  rewrite (bind_Return _ _ _ _ _ Hv).
  rewrite (bind_Return _ _ _ _ _ (_parent_index_pos i h ltac:(lia))).
  pose proof (parent_range i ltac:(lia)) as Hp.
  destruct (py_getitem_in_range (parent i) h) as (w & _ & Hw); [lia|].
  by rewrite (bind_Return _ _ _ _ _ Hw).
Qed.

Lemma _bubble_up_out_of_range i h :
  ¬ (0 ≤ i ≤ len h - 1) → i ≠ 0 → _bubble_up i h = (Raise IndexError, h).
Proof.
  intros Hi H0. unfold _bubble_up. rewrite bool_decide_false by done.
  rewrite (bind_Return _ _ _ _ _ (_last_index_eq h)).
  by rewrite bool_decide_false by done.
Qed.

Lemma _bubble_down_in_range i h :
  0 ≤ i ≤ len h - 1 → _bubble_down i h = (Return (), h).
Proof.
  intros Hi. unfold _bubble_down.
  rewrite (bind_Return _ _ _ _ _ (_last_index_eq h)).
  rewrite bool_decide_true by done. simpl.
  unfold _left_child_index, _right_child_index.
  rewrite (bind_Return _ _ _ _ h (eq_refl : ret (Z.shiftl i 1 + 1) h = _)).
  rewrite (bind_Return _ _ _ _ h (eq_refl : ret (Z.shiftl i 1 + 2) h = _)).
  rewrite (bind_Return _ _ _ _ _ (_last_index_eq h)).
  case_bool_decide; [done|].
  destruct (py_getitem_in_range i h) as (v & _ & Hv); [lia|].
  rewrite (bind_Return _ _ _ _ _ Hv).
  destruct (py_getitem_in_range 0 h) as (w & _ & Hw); [lia|].
  by rewrite (bind_Return _ _ _ _ _ Hw).
Qed.

Lemma _bubble_down_out_of_range i h :
  ¬ (0 ≤ i ≤ len h - 1) → _bubble_down i h = (Raise IndexError, h).
Proof.
  intros Hi. unfold _bubble_down.
  rewrite (bind_Return _ _ _ _ _ (_last_index_eq h)).
  by rewrite bool_decide_false by done.
Qed.

Lemma insert_eq x h : insert x h = (Return (), h ++ [x]).
Proof.
  unfold insert.
  rewrite (bind_Return _ _ h () (h ++ [x]) eq_refl).
  rewrite (bind_Return _ _ _ _ _ (size_eq _)).
  case_bool_decide as Hn; [|done].
  rewrite (bind_Return _ _ _ _ _ (_last_index_eq _)).
  apply _bubble_up_in_range. lia.
Qed.

Lemma get_min_nil : get_min (@nil T) = (Raise ValueError, []).
Proof. reflexivity. Qed.

Lemma get_min_cons x h : get_min (x :: h) = (Return x, x :: h).
Proof.
  pose proof (len_nonneg h) as Hh. pose proof (len_cons x h) as Hc.
  unfold get_min.
  rewrite (bind_Return _ _ _ _ _ (size_eq _)).
  rewrite bool_decide_false by lia.
  rewrite (bind_Return _ _ _ _ _ (size_eq _)).
  rewrite bool_decide_true by lia.
  rewrite (bind_Return _ _ (x :: h) () (x :: h) eq_refl).
  apply py_getitem_0.
Qed.

Lemma delete_min_nil : delete_min (@nil T) = (Raise ValueError, []).
Proof. reflexivity. Qed.

Lemma delete_min_singleton x : delete_min [x] = (Return x, []).
Proof. reflexivity. Qed.

(** With two items or more: the root is returned and the last item takes
    its place. *)
Lemma delete_min_snoc x h z : delete_min (x :: h ++ [z]) = (Return x, z :: h).
Proof.
  pose proof (len_nonneg h) as Hh.
  assert (len (x :: h ++ [z]) = len h + 2) as Hc.
  { rewrite len_cons, len_app, len_cons, len_nil. lia. }
  unfold delete_min.
  rewrite (bind_Return _ _ _ _ _ (size_eq _)).
  rewrite bool_decide_false by lia.
  rewrite (bind_Return _ _ _ _ _ (size_eq _)).
  rewrite bool_decide_false by lia.
  rewrite (bind_Return _ _ _ _ _ (size_eq _)).
  rewrite bool_decide_true by lia.
  rewrite (bind_Return _ _ (x :: h ++ [z]) () (x :: h ++ [z]) eq_refl).
  rewrite (bind_Return _ _ _ _ _ (py_getitem_0 _ _)).
  rewrite (bind_Return _ _ _ _ _ (py_pop_snoc (x :: h) z)).
  rewrite (bind_Return _ _ _ _ _ (py_setitem_0 _ _ _)).
  rewrite (bind_Return _ _ _ _ _ (size_eq _)).
  case_bool_decide as Hn.
  - rewrite (bind_Return _ _ _ () (z :: h)); [done|].
    apply _bubble_down_in_range. lia.
  - by rewrite (bind_Return _ _ (z :: h) () (z :: h) eq_refl).
Qed.

Lemma replace_min_nil x : replace_min x (@nil T) = (Raise ValueError, []).
Proof. reflexivity. Qed.

Lemma replace_min_cons x y h : replace_min x (y :: h) = (Return y, x :: h).
Proof.
  pose proof (len_nonneg h) as Hh. pose proof (len_cons y h) as Hc.
  unfold replace_min.
  rewrite (bind_Return _ _ _ _ _ (size_eq _)).
  rewrite bool_decide_false by lia.
  rewrite (bind_Return _ _ _ _ _ (size_eq _)).
  rewrite bool_decide_true by lia.
  rewrite (bind_Return _ _ (y :: h) () (y :: h) eq_refl).
  rewrite (bind_Return _ _ _ _ _ (py_getitem_0 _ _)).
  rewrite (bind_Return _ _ _ _ _ (py_setitem_0 _ _ _)).
  rewrite (bind_Return _ _ _ _ _ (size_eq _)).
  case_bool_decide as Hn.
  - rewrite (bind_Return _ _ _ () (x :: h)); [done|].
    apply _bubble_down_in_range. lia.
  - by rewrite (bind_Return _ _ (x :: h) () (x :: h) eq_refl).
Qed.

Lemma insert_each_eq items h : insert_each items h = (Return (), h ++ items).
Proof.
  revert h. induction items as [|x items IH]; intros h; simpl.
  - by rewrite app_nil_r.
  - rewrite (bind_Return _ _ _ _ _ (insert_eq x h)).
    rewrite IH. by rewrite <- app_assoc.
Qed.

End Methods.

(** ** Consequences for whole runs *)

Section Runs.
Context {T : Type}.
Implicit Types (s h : list T) (x : T).

Lemma init_eq (items : list T) : init items = items.
Proof.
  unfold init, exec. destruct items as [|x items]; [done|].
  by rewrite insert_each_eq.
Qed.

(** Since no method reorders anything, every list is the heap left by
    inserting its items one by one. *)
Lemma reachable_any h : reachable h.
Proof.
  induction h as [|x h IH] using rev_ind; [constructor|].
  replace (h ++ [x]) with (exec (insert x) h).
  - by constructor.
  - unfold exec. by rewrite insert_eq.
Qed.

(** On a non-empty list [delete_min] returns the root and leaves a list
    one shorter holding the other items. *)
Lemma delete_min_cons x h :
  ∃ h', delete_min (x :: h) = (Return x, h') ∧ h' ≡ₚ h.
Proof.
  destruct h as [|z h _] using rev_ind.
  - exists []. by rewrite delete_min_singleton.
  - exists (z :: h). rewrite delete_min_snoc. split; [done|].
    by rewrite Permutation_app_comm.
Qed.

(** Emptying a heap by [delete_min] returns every item once. *)
Lemma delete_min_times_perm h :
  ∃ out, delete_min_times (length h) h = (Return out, []) ∧ out ≡ₚ h.
Proof.
  remember (length h) as n eqn:Hn. revert h Hn.
  induction n as [|n IH]; intros h Hn.
  - destruct h; [|done]. by exists [].
  - destruct h as [|x h]; [done|]. simpl in Hn.
    destruct (delete_min_cons x h) as (h' & Hd & Hp).
    destruct (IH h') as (out & Hout & Hperm).
    { rewrite Hp. lia. }
    exists (x :: out). simpl.
    rewrite (bind_Return _ _ _ _ _ Hd).
    rewrite (bind_Return _ _ _ _ _ Hout).
    split; [done|]. by rewrite Hperm, Hp.
Qed.

(** [replace_min] returns what [delete_min] returns and keeps the length. *)
Lemma replace_min_like_delete_min x h :
  h ≠ [] →
  result (replace_min x) h = result delete_min h ∧
  len (exec (replace_min x) h) = len h.
Proof.
  destruct h as [|y h]; [done|]. intros _.
  destruct (delete_min_cons y h) as (h' & Hd & _).
  unfold result, exec. rewrite replace_min_cons, Hd. simpl.
  by rewrite !len_cons.
Qed.

End Runs.

(** ** The specification's properties, settled on the code *)

Section Claims.
Context {T : Type}.
Implicit Types (h : list T) (x : T) (i : Z).

(** C6: [size()] grows by exactly one with each [insert], shrinks by
    exactly one with each [delete_min] that returns, and is left unchanged
    by each [replace_min] that returns; this holds from every list, hence
    from every reachable heap.  [n] is what [size()] returns before the
    call, and [size()] itself never changes [items]. *)
Theorem size_accounting h x :
  ∃ n, size h = (Return n, h) ∧
    (∃ h', insert x h = (Return (), h') ∧ size h' = (Return (n + 1), h')) ∧
    (∀ v h', delete_min h = (Return v, h') → size h' = (Return (n - 1), h')) ∧
    (∀ v h', replace_min x h = (Return v, h') → size h' = (Return n, h')).
Proof.
  exists (len h). split; [apply size_eq|]. split; [|split].
  - exists (h ++ [x]). split; [apply insert_eq|].
    rewrite size_eq. by rewrite len_app, len_cons, len_nil.
  - intros v h' Hd. destruct h as [|y h]; [by rewrite delete_min_nil in Hd|].
    destruct (delete_min_cons y h) as (h2 & Hd2 & Hp).
    rewrite Hd2 in Hd. injection Hd as _ <-.
    rewrite size_eq. do 2 f_equal.
    rewrite len_cons. unfold len. rewrite Hp. lia.
  - intros v h' Hr. destruct h as [|y h]; [by rewrite replace_min_nil in Hr|].
    rewrite replace_min_cons in Hr. injection Hr as _ <-.
    rewrite size_eq. by rewrite !len_cons.
Qed.

(** C7: [get_min], [delete_min] and [replace_min] raise [ValueError] (the
    empty-container error) exactly when the size is 0, they raise nothing
    else, and a call that raises leaves [items] as it was. *)
Theorem empty_heap_errors h x :
  (result get_min h = Raise ValueError ↔ result size h = Return 0) ∧
  (result delete_min h = Raise ValueError ↔ result size h = Return 0) ∧
  (result (replace_min x) h = Raise ValueError ↔ result size h = Return 0) ∧
  (∀ e, result get_min h = Raise e → e = ValueError ∧ exec get_min h = h) ∧
  (∀ e, result delete_min h = Raise e → e = ValueError ∧ exec delete_min h = h) ∧
  (∀ e, result (replace_min x) h = Raise e →
        e = ValueError ∧ exec (replace_min x) h = h).
Proof.
  unfold result, exec. rewrite size_eq. simpl.
  destruct h as [|y h].
  - rewrite get_min_nil, delete_min_nil, replace_min_nil. simpl.
    repeat split; congruence.
  - destruct (delete_min_cons y h) as (h2 & -> & _).
    rewrite get_min_cons, replace_min_cons. simpl.
    assert (len (y :: h) ≠ 0) as Hne.
    { rewrite len_cons. pose proof (len_nonneg h). lia. }
    repeat split; try discriminate; intros [=]; done.
Qed.

(** C8: after inserting [x] into an empty heap, [get_min()] returns [x];
    [delete_min()] returns [x] and leaves the heap empty, of size 0. *)
Theorem single_element x :
  (run! insert x in get_min) [] = (Return x, [x]) ∧
  (run! insert x in
   let! d := delete_min in
   let! n := size in
   let! e := is_empty in ret (d, n, e)) [] = (Return (x, 0, true), []).
Proof. split; reflexivity. Qed.

(** C9 (amended): for an index outside [0, size-1], [_bubble_down] raises
    [IndexError] and so does [_bubble_up] unless the index is 0, for which
    it returns at once (index 0 is out of range on the empty heap only);
    [_parent_index] raises [IndexError] for every index [<= 0].  None of
    these calls changes [items]. *)
Theorem sift_index_errors h i :
  (¬ (0 ≤ i ≤ len h - 1) →
     _bubble_down i h = (Raise IndexError, h) ∧
     (i ≠ 0 → _bubble_up i h = (Raise IndexError, h)) ∧
     (i = 0 → _bubble_up i h = (Return (), h))) ∧
  (i ≤ 0 → _parent_index i h = (Raise IndexError, h)).
Proof.
  split.
  - intros Hi. split; [by apply _bubble_down_out_of_range|]. split.
    + by apply _bubble_up_out_of_range.
    + intros ->. apply _bubble_up_root.
  - apply _parent_index_nonpos.
Qed.

(** C10: with an index in range, [_bubble_up] and [_bubble_down] return
    and leave [items] exactly as it was; hence inserting a sequence of
    items into an empty heap leaves [items] equal to that sequence, in
    insertion order. *)
Theorem sift_routines_do_not_swap :
  (∀ h i, 0 ≤ i ≤ len h - 1 →
     _bubble_up i h = (Return (), h) ∧ _bubble_down i h = (Return (), h)) ∧
  (∀ items : list T, insert_each items [] = (Return (), items)).
Proof.
  split.
  - intros h i Hi. split.
    + by apply _bubble_up_in_range.
    + by apply _bubble_down_in_range.
  - intros items. by rewrite insert_each_eq.
Qed.

End Claims.

(** Instances of the theorems above on concrete heaps. *)

Lemma size_accounting_witness :
  size [5; 7] = (Return 2, [5; 7]) ∧
  (∃ h', insert 4 [5; 7] = (Return (), h') ∧ size h' = (Return 3, h')) ∧
  size [7] = (Return 1, [7]) ∧
  size [4; 7] = (Return 2, [4; 7]).
Proof.
  destruct (size_accounting [5; 7] 4) as (n & Hn & Hi & Hd & Hr).
  assert (n = 2) as -> by (injection Hn as <-; reflexivity).
  split; [exact Hn|]. split; [exact Hi|]. split.
  - apply (Hd 5 [7]). reflexivity.
  - apply (Hr 5 [4; 7]). reflexivity.
Defined.

Lemma empty_heap_errors_witness :
  result get_min ([] : list Z) = Raise ValueError ∧
  exec get_min ([] : list Z) = [] ∧
  exec delete_min ([] : list Z) = [] ∧
  exec (replace_min 1) ([] : list Z) = [].
Proof.
  destruct (empty_heap_errors ([] : list Z) 1) as (Hg & _ & _ & Hg' & Hd' & Hr').
  split; [apply Hg; reflexivity|]. split; [|split].
  - apply (Hg' ValueError). reflexivity.
  - apply (Hd' ValueError). reflexivity.
  - apply (Hr' ValueError). reflexivity.
Defined.

Lemma sift_index_errors_witness :
  _bubble_down (-2) [5] = (Raise IndexError, [5]) ∧
  _bubble_up (-2) [5] = (Raise IndexError, [5]) ∧
  _parent_index (-2) [5] = (Raise IndexError, [5]).
Proof.
  destruct (sift_index_errors [5] (-2)) as (Hs & Hp).
  destruct Hs as (Hd & Hu & _).
  { vm_compute. intros [H _]. apply H. reflexivity. }
  split; [exact Hd|]. split.
  - apply Hu. discriminate.
  - apply Hp. discriminate.
Defined.

Lemma sift_routines_do_not_swap_witness :
  _bubble_up 1 [4; 2] = (Return (), [4; 2]) ∧
  _bubble_down 1 [4; 2] = (Return (), [4; 2]).
Proof.
  apply (proj1 (@sift_routines_do_not_swap Z) [4; 2] 1).
  vm_compute. split; discriminate.
Defined.

(** ** Where the code departs from the specification

    The source leaves the swapping parts of [_bubble_up] and [_bubble_down]
    to be written, so the heap is never reordered.  The evaluations below
    record what the methods do on heaps of integers. *)

(** C9 as stated fails: index 0 is outside [0, size-1] on the empty heap,
    yet [_bubble_up(0)] returns instead of raising [IndexError]. *)
Lemma bubble_up_root_of_empty_returns :
  ¬ (∀ (h : list Z) (i : Z),
       ¬ (0 ≤ i ≤ len h - 1) → result (_bubble_up i) h = Raise IndexError).
Proof.
  intros H. specialize (H [] 0).
  assert (¬ (0 ≤ 0 ≤ len (@nil Z) - 1)) as Hout.
  { vm_compute. intros [_ Hc]. by apply Hc. }
  specialize (H Hout). discriminate H.
Qed.

(** C1: inserting 9, 25, 86, 3 into an empty heap leaves
    [items = [9; 25; 86; 3]], where position 3 holds 3 under its parent
    25 at position 1: a reachable heap without the heap property. *)
Theorem heap_property_broken_by_insert :
  insert_each [9; 25; 86; 3] [] = (Return (), [9; 25; 86; 3]) ∧
  reachable [9; 25; 86; 3] ∧
  ¬ heap_property [9; 25; 86; 3].
Proof.
  split; [reflexivity|]. split; [apply reachable_any|].
  intros Hheap. destruct (Hheap 3) as (p & c & Hp & Hc & Hle).
  { vm_compute. split; reflexivity. }
  vm_compute in Hp, Hc. injection Hp as <-. injection Hc as <-. lia.
Qed.

(** C2: after inserting 9, 25, 86, 3 into an empty heap, [get_min()]
    returns 9 (and leaves the heap as it was) while the minimum item is 3. *)
Theorem get_min_not_minimum :
  (run! insert_each [9; 25; 86; 3] in get_min) [] = (Return 9, [9; 25; 86; 3]) ∧
  minimum [9; 25; 86; 3] = Some 3.
Proof. split; reflexivity. Qed.

(** C3: inserting 2 then 1 into an empty heap and emptying it with
    [delete_min] returns 2 then 1, which is not in non-decreasing order
    (the items returned are the items inserted, see
    [delete_min_times_perm]). *)
Theorem delete_min_order_broken :
  (run! insert_each [2; 1] in delete_min_times 2) [] = (Return [2; 1], []) ∧
  ¬ nondecreasing [2; 1].
Proof.
  split; [reflexivity|]. simpl. lia.
Qed.

(** C4: on the scenario of the source's own test, [get_min()] after each
    insertion returns 9 seven times, and the seven [delete_min()] calls
    return 9, 55, 5, 29, 3, 86, 25; the heap is empty afterwards. *)
Theorem concrete_scenario_actual :
  (let! mins := insert_get_min_each [9; 25; 86; 3; 29; 5; 55] in
   let! outs := delete_min_times 7 in
   let! n := size in
   let! e := is_empty in
   ret (mins, outs, n, e)) []
  = (Return ([9; 9; 9; 9; 9; 9; 9], [9; 55; 5; 29; 3; 86; 25], 0, true), []).
Proof. vm_compute. reflexivity. Qed.

(** C5: on the heap [1; 2] (insert 1, insert 2), [replace_min(10)] returns
    1 as [delete_min()] does and keeps two items, but leaves 10 at the root:
    [get_min()] is then 10, above the minimum 2 of the remaining item 2
    together with 10. *)
Theorem replace_min_root_not_minimum :
  insert_each [1; 2] [] = (Return (), [1; 2]) ∧
  delete_min [1; 2] = (Return 1, [2]) ∧
  replace_min 10 [1; 2] = (Return 1, [10; 2]) ∧
  get_min [10; 2] = (Return 10, [10; 2]) ∧
  minimum ([2] ++ [10]) = Some 2.
Proof. repeat split; reflexivity. Qed.


(** ** Further properties of the code *)

Section IndexArithmetic.
Context {T : Type}.
Implicit Types (h : list T) (i j : Z).

Lemma shiftl_1 i : Z.shiftl i 1 = 2 * i.
Proof. rewrite Z.shiftl_mul_pow2 by lia. lia. Qed.

(** X1: for every index [i >= 0], [_parent_index] applied to the result of
    [_left_child_index(i)] or of [_right_child_index(i)] returns [i]. *)
Theorem parent_of_children h i :
  0 ≤ i →
  (let! l := _left_child_index i in _parent_index l) h = (Return i, h) ∧
  (let! r := _right_child_index i in _parent_index r) h = (Return i, h).
Proof.
  intros Hi. unfold _left_child_index, _right_child_index, bind, ret.
  rewrite !_parent_index_pos by (rewrite shiftl_1; lia).
  rewrite !parent_div, shiftl_1.
  split; do 2 f_equal.
  - replace (2 * i + 1 - 1) with (i * 2) by lia. by rewrite Z.div_mul.
  - replace (2 * i + 2 - 1) with (1 + i * 2) by lia.
    rewrite Z.div_add by lia. reflexivity.
Qed.

(** X2: every index [i > 0] is the left child or the right child of the
    index returned by [_parent_index(i)], and never both. *)
Theorem child_of_parent h i :
  0 < i →
  ∃ p, _parent_index i h = (Return p, h) ∧
       (result (_left_child_index p) h = Return i ∧
        result (_right_child_index p) h ≠ Return i
        ∨
        result (_right_child_index p) h = Return i ∧
        result (_left_child_index p) h ≠ Return i).
Proof.
  intros Hi. exists (parent i). split; [by apply _parent_index_pos|].
  unfold result, _left_child_index, _right_child_index, ret. simpl.
  rewrite shiftl_1, parent_div.
  pose proof (Z.div_mod (i - 1) 2 ltac:(lia)) as Hdm.
  pose proof (Z.mod_pos_bound (i - 1) 2 ltac:(lia)) as Hm.
  destruct (decide ((i - 1) mod 2 = 0)) as [H0|H1].
  - left. split; [f_equal; lia|]. intros [=]. lia.
  - right. split; [f_equal; lia|]. intros [=]. lia.
Qed.

(** X3: [_left_child_index] and [_right_child_index] return for every
    index, negative or beyond the heap, without a bounds check and without
    touching [items]; the right child is the left child plus 1.  The child
    indices never collide: both functions are injective and a left child is
    never a right child.  For [i >= 0] both children lie strictly after
    [i]. *)
Theorem children_distinct h i j :
  (∃ l r, _left_child_index i h = (Return l, h) ∧
          _right_child_index i h = (Return r, h) ∧
          r = l + 1 ∧ (0 ≤ i → i < l)) ∧
  (result (_left_child_index i) h = result (_left_child_index j) h → i = j) ∧
  (result (_right_child_index i) h = result (_right_child_index j) h → i = j) ∧
  result (_left_child_index i) h ≠ result (_right_child_index j) h.
Proof.
  unfold result, _left_child_index, _right_child_index, ret. simpl.
  rewrite !shiftl_1.
  split; [exists (2 * i + 1), (2 * i + 2); repeat split; lia|].
  split; [intros [=]; lia|]. split; [intros [=]; lia|].
  intros [=]; lia.
Qed.

(** X4: for an index [i] with [0 < i <= last index], [_parent_index]
    returns an index [p] with [0 <= p < i], at which [items] can be read. *)
Theorem parent_index_in_range h i :
  0 < i ≤ len h - 1 →
  ∃ p v, _parent_index i h = (Return p, h) ∧ 0 ≤ p < i ∧
         py_getitem p h = (Return v, h).
Proof.
  intros Hi. pose proof (parent_range i ltac:(lia)) as Hp.
  destruct (py_getitem_in_range (parent i) h) as (v & _ & Hv); [lia|].
  exists (parent i), v. split; [apply _parent_index_pos; lia|]. by split.
Qed.

End IndexArithmetic.

Lemma parent_of_children_witness :
  (let! l := _left_child_index 3 in _parent_index l) [5; 6] = (Return 3, [5; 6]) ∧
  (let! r := _right_child_index 3 in _parent_index r) [5; 6] = (Return 3, [5; 6]).
Proof. apply (parent_of_children [5; 6] 3). lia. Defined.

Lemma child_of_parent_witness :
  ∃ p, _parent_index 4 [5; 6] = (Return p, [5; 6]) ∧
       (result (_left_child_index p) [5; 6] = Return 4 ∧
        result (_right_child_index p) [5; 6] ≠ Return 4
        ∨
        result (_right_child_index p) [5; 6] = Return 4 ∧
        result (_left_child_index p) [5; 6] ≠ Return 4).
Proof. apply (child_of_parent [5; 6] 4). lia. Defined.

Lemma children_distinct_witness :
  ∃ l r, _left_child_index 2 [5; 6] = (Return l, [5; 6]) ∧
         _right_child_index 2 [5; 6] = (Return r, [5; 6]) ∧
         r = l + 1 ∧ 2 < l.
Proof.
  destruct (children_distinct [5; 6] 2 2) as ((l & r & Hl & Hr & Hlr & Hlt) & _).
  exists l, r. split; [exact Hl|]. split; [exact Hr|]. split; [exact Hlr|].
  apply Hlt. discriminate.
Defined.

Lemma parent_index_in_range_witness :
  ∃ p v, _parent_index 2 [5; 6; 7] = (Return p, [5; 6; 7]) ∧ 0 ≤ p < 2 ∧
         py_getitem p [5; 6; 7] = (Return v, [5; 6; 7]).
Proof.
  apply (parent_index_in_range [5; 6; 7] 2).
  vm_compute. split; [reflexivity | discriminate].
Defined.

Section Operations.
Context {T : Type}.
Implicit Types (h s : list T) (x : T).

(** X5: [is_empty()] returns [True] exactly when [size()] returns 0, that
    is when [items] is the empty list, and leaves [items] unchanged. *)
Theorem is_empty_iff_size_zero h :
  ∃ b, is_empty h = (Return b, h) ∧
       (b = true ↔ size h = (Return 0, h)) ∧
       (b = true ↔ h = []).
Proof.
  unfold is_empty. rewrite (bind_Return _ _ _ _ _ (size_eq h)), size_eq.
  case_bool_decide as Hn.
  - exists true. split; [done|]. rewrite Hn. apply len_zero in Hn. by subst.
  - exists false. split; [done|]. split.
    + split; [done|]. intros [=]. done.
    + split; [done|]. intros ->. done.
Qed.

Lemma __init___eq (items : option (list T)) s :
  __init__ items s = (Return (), default [] items).
Proof.
  unfold __init__.
  rewrite (bind_Return _ _ s () [] eq_refl).
  destruct items as [[|x l]|]; [done| |done].
  by rewrite insert_each_eq.
Qed.

(** X6: the constructor always returns; whatever the object held before,
    it then holds exactly the given items in the given order (nothing for
    [None] or an empty list), and [size()] is their number. *)
Theorem constructor_holds_items (items : option (list T)) s :
  __init__ items s = (Return (), default [] items) ∧
  (run! __init__ items in size) s
    = (Return (len (default [] items)), default [] items).
Proof.
  split; [apply __init___eq|].
  by rewrite (bind_Return _ _ _ _ _ (__init___eq items s)).
Qed.

(** X7: on a non-empty heap [delete_min()] returns [items[0]] and removes
    exactly that occurrence: the items left, together with the one
    returned, are the items held before. *)
Theorem delete_min_removes_root h :
  h ≠ [] →
  ∃ x h', delete_min h = (Return x, h') ∧ h !! 0%nat = Some x ∧ x :: h' ≡ₚ h.
Proof.
  destruct h as [|x h]; [done|]. intros _.
  destruct (delete_min_cons x h) as (h' & Hd & Hp).
  exists x, h'. split; [done|]. split; [done|]. by rewrite Hp.
Qed.

(** X8: on a non-empty heap [replace_min(x)] returns [items[0]] and changes
    [items] at position 0 only, which then holds [x]. *)
Theorem replace_min_overwrites_root x h :
  h ≠ [] →
  ∃ y, h !! 0%nat = Some y ∧ replace_min x h = (Return y, <[0%nat := x]> h).
Proof.
  destruct h as [|y h]; [done|]. intros _.
  exists y. split; [done|]. by rewrite replace_min_cons.
Qed.

(** X9: on a non-empty heap, [insert(x)] followed by [delete_min()] returns
    the same item and leaves the same [items] as [replace_min(x)]. *)
Theorem insert_delete_min_is_replace_min x h :
  h ≠ [] → (run! insert x in delete_min) h = replace_min x h.
Proof.
  destruct h as [|y h]; [done|]. intros _.
  rewrite (bind_Return _ _ _ _ _ (insert_eq x (y :: h))).
  by rewrite <- app_comm_cons, delete_min_snoc, replace_min_cons.
Qed.

(** X10: on a non-empty heap, [delete_min()] followed by [insert(x)]
    returns the same item as [replace_min(x)] and leaves the same items up
    to their order. *)
Theorem delete_min_insert_like_replace_min x h :
  h ≠ [] →
  result (let! m := delete_min in run! insert x in ret m) h
    = result (replace_min x) h ∧
  exec (let! m := delete_min in run! insert x in ret m) h
    ≡ₚ exec (replace_min x) h.
Proof.
  destruct h as [|y h]; [done|]. intros _.
  destruct (delete_min_cons y h) as (h' & Hd & Hp).
  unfold result, exec.
  rewrite (bind_Return _ _ _ _ _ Hd).
  rewrite (bind_Return _ _ _ _ _ (insert_eq x h')).
  rewrite replace_min_cons. simpl. split; [done|].
  by rewrite Hp, Permutation_app_comm.
Qed.

(** X11: [get_min()] never changes [items], and its outcome (the item
    returned, or the [ValueError]) is the outcome of the [delete_min()] or
    [replace_min(x)] call that could be made in its place. *)
Theorem get_min_peeks x h :
  exec get_min h = h ∧
  result get_min h = result delete_min h ∧
  result get_min h = result (replace_min x) h.
Proof.
  unfold result, exec. destruct h as [|y h].
  - by rewrite get_min_nil, delete_min_nil, replace_min_nil.
  - destruct (delete_min_cons y h) as (h' & -> & _).
    by rewrite get_min_cons, replace_min_cons.
Qed.

(** X12: a heap built from [items] is emptied by as many [delete_min()]
    calls as there are items; these calls return the items, each once, in
    some order, and the heap is empty afterwards. *)
Theorem init_then_delete_all (items : list T) s :
  ∃ out,
    (run! __init__ (Some items) in
     let! out := delete_min_times (length items) in
     let! e := is_empty in
     ret (out, e)) s = (Return (out, true), []) ∧
    out ≡ₚ items.
Proof.
  destruct (delete_min_times_perm items) as (out & Hout & Hperm).
  exists out. split; [|done].
  rewrite (bind_Return _ _ _ _ _ (__init___eq (Some items) s)).
  simpl. by rewrite (bind_Return _ _ _ _ _ Hout).
Qed.

End Operations.

Lemma delete_min_removes_root_witness :
  ∃ x h', delete_min [4; 8; 6] = (Return x, h') ∧
          [4; 8; 6] !! 0%nat = Some x ∧ x :: h' ≡ₚ [4; 8; 6].
Proof. apply (delete_min_removes_root [4; 8; 6]). discriminate. Defined.

Lemma replace_min_overwrites_root_witness :
  ∃ y, [4; 8; 6] !! 0%nat = Some y ∧
       replace_min 7 [4; 8; 6] = (Return y, <[0%nat := 7]> [4; 8; 6]).
Proof. apply (replace_min_overwrites_root 7 [4; 8; 6]). discriminate. Defined.

Lemma insert_delete_min_is_replace_min_witness :
  (run! insert 7 in delete_min) [4; 8; 6] = replace_min 7 [4; 8; 6].
Proof. apply (insert_delete_min_is_replace_min 7 [4; 8; 6]). discriminate. Defined.

Lemma delete_min_insert_like_replace_min_witness :
  result (let! m := delete_min in run! insert 7 in ret m) [4; 8; 6]
    = result (replace_min 7) [4; 8; 6] ∧
  exec (let! m := delete_min in run! insert 7 in ret m) [4; 8; 6]
    ≡ₚ exec (replace_min 7) [4; 8; 6].
Proof. apply (delete_min_insert_like_replace_min 7 [4; 8; 6]). discriminate. Defined.

(** ** When the heap order holds *)

Section HeapOrder.
Implicit Types (h items : list Z) (x : Z).

Lemma heap_root_le h :
  heap_property h →
  ∀ n : nat, (n < length h)%nat →
    ∃ r c, h !! 0%nat = Some r ∧ h !! n = Some c ∧ r ≤ c.
Proof.
  intros Hheap n. induction (lt_wf n) as [n _ IH]. intros Hn.
  destruct n as [|n].
  - destruct h as [|r h]; [simpl in Hn; lia|]. exists r, r. by repeat split.
  - destruct (Hheap (Z.of_nat (S n))) as (p & c & Hp & Hc & Hle).
    { unfold len. lia. }
    rewrite Nat2Z.id in Hc.
    pose proof (parent_range (Z.of_nat (S n)) ltac:(lia)) as Hr.
    destruct (IH (Z.to_nat (parent (Z.of_nat (S n))))) as (r & c' & H0 & Hc' & Hle').
    { lia. } { lia. }
    rewrite Hp in Hc'. injection Hc' as <-.
    exists r, c. repeat split; [done..|lia].
Qed.

Lemma foldr_min_lower x (l : list Z) :
  (∀ y, y ∈ l → x ≤ y) → foldr Z.min x l = x.
Proof.
  induction l as [|y l IH]; intros Hl; [done|]. simpl.
  rewrite IH by (intros z Hz; apply Hl; by right).
  apply Z.min_r, Hl. by left.
Qed.

Lemma len_snoc {A} (l : list A) (a : A) : len (l ++ [a]) = len l + 1.
Proof. by rewrite len_app, len_cons, len_nil. Qed.

Lemma lookup_snoc_old {A} (l : list A) (a : A) (n : nat) :
  (n < length l)%nat → (l ++ [a]) !! n = l !! n.
Proof. intros Hn. by apply lookup_app_l. Qed.

Lemma lookup_snoc_new {A} (l : list A) (a : A) :
  (l ++ [a]) !! length l = Some a.
Proof. by rewrite lookup_app_r, Nat.sub_diag by lia. Qed.

(** X13: on a non-empty heap that satisfies the heap property, [get_min()]
    returns the minimum of the items: an item of the heap that no item is
    smaller than. *)
Theorem get_min_of_ordered_heap h :
  heap_property h → h ≠ [] →
  ∃ m, get_min h = (Return m, h) ∧ minimum h = Some m ∧
       m ∈ h ∧ ∀ y, y ∈ h → m ≤ y.
Proof.
  intros Hheap Hne. destruct h as [|m h]; [done|].
  assert (∀ y, y ∈ m :: h → m ≤ y) as Hmin.
  { intros y Hy. apply list_elem_of_lookup in Hy as [n Hn].
    destruct (heap_root_le _ Hheap n) as (r & c & Hr & Hc & Hle).
    { by eapply lookup_lt_Some. }
    simpl in Hr. injection Hr as <-. rewrite Hn in Hc. by injection Hc as <-. }
  exists m. split; [apply get_min_cons|]. split; [|split; [by left|done]].
  simpl. f_equal. apply foldr_min_lower. intros y Hy. apply Hmin. by right.
Qed.

(** X14: [insert(x)] on a heap that satisfies the heap property leaves one
    that satisfies it exactly when the heap was empty or [x] is not smaller
    than the item at the parent of the new last position. *)
Theorem insert_keeps_heap_property_iff x h :
  heap_property h →
  (heap_property (exec (insert x) h) ↔
   h = [] ∨ ∃ p, h !! Z.to_nat (parent (len h)) = Some p ∧ p ≤ x).
Proof.
  intros Hheap. unfold exec. rewrite insert_eq. cbn [snd]. split.
  - intros Hnew. destruct h as [|r h]; [by left|]. right.
    assert (0 < len (r :: h)) as Hpos.
    { rewrite len_cons. pose proof (len_nonneg h). lia. }
    destruct (Hnew (len (r :: h))) as (p & c & Hp & Hc & Hle).
    { rewrite len_snoc. lia. }
    pose proof (parent_range _ Hpos) as Hr.
    unfold len in Hc. rewrite Nat2Z.id, lookup_snoc_new in Hc.
    injection Hc as <-.
    rewrite lookup_snoc_old in Hp by (unfold len in *; lia).
    by exists p.
  - intros Hx i Hi. rewrite len_snoc in Hi.
    pose proof (parent_range i ltac:(lia)) as Hr.
    destruct (decide (i = len h)) as [->|Hlt].
    + destruct Hx as [->|(p & Hp & Hle)]; [unfold len in Hi; simpl in Hi; lia|].
      exists p, x. split; [|split; [|done]].
      * rewrite lookup_snoc_old by (unfold len in *; lia). done.
      * unfold len. rewrite Nat2Z.id. apply lookup_snoc_new.
    + destruct (Hheap i) as (p & c & Hp & Hc & Hle); [lia|].
      exists p, c. unfold len in *.
      rewrite !lookup_snoc_old by lia. done.
Qed.

Lemma heap_propertyb_sound (l : list Z) :
  heap_propertyb l = true → heap_property l.
Proof.
  unfold heap_propertyb. rewrite forallb_forall. intros Hall i Hi.
  specialize (Hall (Z.to_nat i)). rewrite in_seq in Hall.
  unfold len in Hi. specialize (Hall ltac:(lia)).
  rewrite Z2Nat.id in Hall by lia.
  destruct (l !! Z.to_nat (parent i)) as [p|]; [|done].
  destruct (l !! Z.to_nat i) as [c|]; [|done].
  exists p, c. split; [done|]. split; [done|].
  by apply bool_decide_eq_true in Hall.
Qed.

Lemma nondecreasing_tail x (l : list Z) : nondecreasing (x :: l) → nondecreasing l.
Proof. destruct l as [|y l]; [done|]. by intros [_ ?]. Qed.

Lemma nondecreasing_head_le (l : list Z) :
  ∀ x, nondecreasing (x :: l) → ∀ y, y ∈ l → x ≤ y.
Proof.
  induction l as [|z l IH]; intros x Hs y Hy.
  - by apply elem_of_nil in Hy.
  - destruct Hs as [Hxz Hs]. apply elem_of_cons in Hy as [->|Hy]; [done|].
    specialize (IH z Hs y Hy). lia.
Qed.

Lemma nondecreasing_lookup (l : list Z) :
  nondecreasing l →
  ∀ (n m : nat) a b, (n < m)%nat → l !! n = Some a → l !! m = Some b → a ≤ b.
Proof.
  induction l as [|x l IH]; intros Hs n m a b Hnm Ha Hb; [done|].
  destruct m as [|m]; [lia|]. destruct n as [|n].
  - simpl in Ha, Hb. injection Ha as <-.
    apply (nondecreasing_head_le l x Hs). by eapply list_elem_of_lookup_2.
  - simpl in Ha, Hb. apply (IH (nondecreasing_tail x l Hs) n m); [lia|done..].
Qed.

(** X15: a heap built from items given in non-decreasing order satisfies
    the heap property. *)
Theorem sorted_items_give_heap items s :
  nondecreasing items → heap_property (exec (__init__ (Some items)) s).
Proof.
  intros Hs. unfold exec. rewrite __init___eq. simpl. intros i Hi.
  pose proof (parent_range i ltac:(lia)) as Hr. unfold len in Hi.
  destruct (lookup_lt_is_Some_2 items (Z.to_nat (parent i))) as [p Hp]; [lia|].
  destruct (lookup_lt_is_Some_2 items (Z.to_nat i)) as [c Hc]; [lia|].
  exists p, c. split; [done|]. split; [done|].
  apply (nondecreasing_lookup items Hs (Z.to_nat (parent i)) (Z.to_nat i));
    [lia|done..].
Qed.

Lemma heap_property_prefix (l : list Z) z :
  heap_property (l ++ [z]) → heap_property l.
Proof.
  intros Hheap i Hi.
  pose proof (parent_range i ltac:(lia)) as Hr.
  destruct (Hheap i) as (p & c & Hp & Hc & Hle); [rewrite len_snoc; lia|].
  unfold len in *. rewrite lookup_snoc_old in Hp, Hc by lia.
  by exists p, c.
Qed.

Lemma parent_zero i : 0 < i → (parent i = 0 ↔ i = 1 ∨ i = 2).
Proof.
  intros Hi. rewrite parent_div.
  pose proof (Z.div_mod (i - 1) 2 ltac:(lia)) as Hdm.
  pose proof (Z.mod_pos_bound (i - 1) 2 ltac:(lia)) as Hm.
  lia.
Qed.

(** Putting [x] at the root of an ordered heap keeps the order exactly when
    [x] is not above the items at positions 1 and 2. *)
Lemma heap_property_new_root x y (t : list Z) :
  heap_property (y :: t) →
  (heap_property (x :: t) ↔
   ∀ c, (x :: t) !! 1%nat = Some c ∨ (x :: t) !! 2%nat = Some c → x ≤ c).
Proof.
  intros Hheap. split.
  - intros Hnew c Hc.
    assert (∃ i, 0 < i < len (x :: t) ∧ parent i = 0 ∧
                 (x :: t) !! Z.to_nat i = Some c) as (i & Hi & Hp0 & Hic).
    { destruct Hc as [Hc|Hc]; [exists 1 | exists 2];
        (split; [|split; [done|exact Hc]]);
        apply lookup_lt_Some in Hc; unfold len; lia. }
    destruct (Hnew i Hi) as (p & c' & Hp & Hc' & Hle).
    rewrite Hp0 in Hp. simpl in Hp. injection Hp as <-.
    rewrite Hic in Hc'. by injection Hc' as <-.
  - intros Hx i Hi. rewrite len_cons in Hi.
    destruct (Hheap i) as (p & c & Hp & Hc & Hle); [rewrite len_cons; lia|].
    assert ((x :: t) !! Z.to_nat i = Some c) as Hc2.
    { destruct (Z.to_nat i) as [|n] eqn:Hn; [lia|]. exact Hc. }
    destruct (decide (parent i = 0)) as [H0|H0].
    + exists x, c. rewrite H0. split; [done|]. split; [done|].
      apply Hx. apply (proj1 (parent_zero i ltac:(lia))) in H0.
      destruct H0 as [-> | ->]; [left; exact Hc2 | right; exact Hc2].
    + pose proof (parent_range i ltac:(lia)) as Hr.
      exists p, c. split; [|done].
      destruct (Z.to_nat (parent i)) as [|n] eqn:Hn; [lia|]. exact Hp.
Qed.

(** X16: on a non-empty heap that satisfies the heap property,
    [replace_min(x)] leaves a heap that satisfies it exactly when [x] is not
    above the items at positions 1 and 2, the children of the root. *)
Theorem replace_min_keeps_heap_property_iff x h :
  heap_property h → h ≠ [] →
  (heap_property (exec (replace_min x) h) ↔
   ∀ c, h !! 1%nat = Some c ∨ h !! 2%nat = Some c → x ≤ c).
Proof.
  intros Hheap Hne. destruct h as [|y t]; [done|].
  unfold exec. rewrite replace_min_cons. cbn [snd].
  apply (heap_property_new_root x y t Hheap).
Qed.

(** X17: on a non-empty heap that satisfies the heap property,
    [delete_min()] leaves a heap that satisfies it exactly when the item it
    moves to the root, the former last item, is not above the items then at
    positions 1 and 2. *)
Theorem delete_min_keeps_heap_property_iff h :
  heap_property h → h ≠ [] →
  (heap_property (exec delete_min h) ↔
   ∀ z c, last h = Some z →
          exec delete_min h !! 1%nat = Some c ∨
          exec delete_min h !! 2%nat = Some c → z ≤ c).
Proof.
  intros Hheap Hne. destruct h as [|y t]; [done|].
  destruct t as [|z t _] using rev_ind.
  - unfold exec. rewrite delete_min_singleton. cbn [snd]. split.
    + intros _ z c _ [Hc|Hc]; discriminate Hc.
    + intros _ i Hi. unfold len in Hi. simpl in Hi. lia.
  - unfold exec. rewrite delete_min_snoc. cbn [snd].
    rewrite app_comm_cons, last_snoc.
    rewrite app_comm_cons in Hheap. apply heap_property_prefix in Hheap.
    rewrite (heap_property_new_root z y t Hheap). split.
    + intros Hz z' c [= <-]. apply Hz.
    + intros Hz c. by apply Hz.
Qed.

End HeapOrder.

Lemma get_min_of_ordered_heap_witness :
  ∃ m, get_min [2; 5; 3] = (Return m, [2; 5; 3]) ∧ minimum [2; 5; 3] = Some m ∧
       m ∈ [2; 5; 3] ∧ ∀ y, y ∈ [2; 5; 3] → m ≤ y.
Proof.
  apply (get_min_of_ordered_heap [2; 5; 3]); [|discriminate].
  apply heap_propertyb_sound. reflexivity.
Defined.

Lemma insert_keeps_heap_property_iff_witness :
  heap_property (exec (insert 4) [2; 5; 3]) ↔
  [2; 5; 3] = [] ∨
  ∃ p, [2; 5; 3] !! Z.to_nat (parent (len [2; 5; 3])) = Some p ∧ p ≤ 4.
Proof.
  apply (insert_keeps_heap_property_iff 4 [2; 5; 3]).
  apply heap_propertyb_sound. reflexivity.
Defined.

Lemma sorted_items_give_heap_witness :
  heap_property (exec (__init__ (Some [1; 2; 2; 7])) [9]).
Proof.
  apply (sorted_items_give_heap [1; 2; 2; 7] [9]). simpl. lia.
Defined.

Lemma replace_min_keeps_heap_property_iff_witness :
  heap_property (exec (replace_min 3) [2; 5; 3]) ↔
  ∀ c, [2; 5; 3] !! 1%nat = Some c ∨ [2; 5; 3] !! 2%nat = Some c → 3 ≤ c.
Proof.
  apply (replace_min_keeps_heap_property_iff 3 [2; 5; 3]); [|discriminate].
  apply heap_propertyb_sound. reflexivity.
Defined.

Lemma delete_min_keeps_heap_property_iff_witness :
  heap_property (exec delete_min [2; 5; 3; 6]) ↔
  ∀ z c, last [2; 5; 3; 6] = Some z →
         exec delete_min [2; 5; 3; 6] !! 1%nat = Some c ∨
         exec delete_min [2; 5; 3; 6] !! 2%nat = Some c → z ≤ c.
Proof.
  apply (delete_min_keeps_heap_property_iff [2; 5; 3; 6]); [|discriminate].
  apply heap_propertyb_sound. reflexivity.
Defined.

(** ** The order in which items leave the heap *)

Section Order.
Context {T : Type}.
Implicit Types (h t : list T) (x : T).

(** X18: emptying a non-empty heap with [delete_min()] returns the item at
    position 0 first and then the other items from the last position down
    to position 1, and leaves the heap empty. *)
Theorem delete_all_order t :
  ∀ x, delete_min_times (length (x :: t)) (x :: t) = (Return (x :: rev t), []).
Proof.
  induction t as [|z m IH] using rev_ind; intros x; [done|].
  rewrite rev_unit.
  replace (length (x :: m ++ [z])) with (S (length (z :: m)))
    by (simpl; rewrite length_app; simpl; lia).
  change (delete_min_times (S (length (z :: m)))) with
    (let! y := @delete_min T in
     let! ys := delete_min_times (length (z :: m)) in
     ret (y :: ys)).
  rewrite (bind_Return _ _ _ _ _ (delete_min_snoc x m z)).
  by rewrite (bind_Return _ _ _ _ _ (IH z)).
Qed.

(** X19: [insert(x)] on a non-empty heap never changes the root:
    [get_min()] returns the same item after the insertion as before it,
    whatever [x] is. *)
Theorem insert_keeps_root x h :
  h ≠ [] → result (run! insert x in get_min) h = result get_min h.
Proof.
  destruct h as [|y h]; [done|]. intros _. unfold result.
  rewrite (bind_Return _ _ _ _ _ (insert_eq x (y :: h))).
  by rewrite <- app_comm_cons, !get_min_cons.
Qed.

End Order.

Lemma insert_keeps_root_witness :
  result (run! insert 1 in get_min) [4; 8; 6] = result get_min [4; 8; 6].
Proof. apply (insert_keeps_root 1 [4; 8; 6]). discriminate. Defined.

Lemma is_empty_iff_size_zero_witness :
  is_empty ([] : list Z) = (Return true, []) ∧ size ([] : list Z) = (Return 0, []).
Proof.
  destruct (is_empty_iff_size_zero ([] : list Z)) as (b & Hb & Hsize & Hnil).
  assert (b = true) as -> by (apply Hnil; reflexivity).
  split; [exact Hb|]. apply Hsize. reflexivity.
Defined.
